(** * CSQLite shim: the SQLITE_TRANSIENT bridge

    A verification development for [src/CSQLite/shim.h], the C header that
    lets Swift obtain SQLite's [SQLITE_TRANSIENT] destructor sentinel through
    an exported function, since Swift cannot import the macro itself.

    The shim is embedded as an interaction tree: a C function is a tree of
    the events it performs (memory traffic, I/O, calls, raised errors) ending
    in the value it returns.  What the shim takes from [<sqlite3.h>] is an
    interface (a class); the storage engine behind that interface is not part
    of the repository and is modelled from the specification where a property
    needs it. *)

From Stdlib Require Import Strings.Byte Strings.String ZArith Lia.
From stdpp Require Import base option list gmap.
From ITree Require Import ITree ITreeFacts Events.State Events.StateFacts
  Events.Exception Props.Finite Props.Leaf.

(** Sequencing of C statements.  ITree's own notations sit at a level stdpp
    already uses with the opposite associativity, hence this scope. *)
Declare Scope c_scope.
Delimit Scope c_scope with C.
Notation "x <- t1 ;; t2" := (ITree.bind t1 (fun x => t2))
  (at level 100, t1 at next level, right associativity) : c_scope.
Notation "t1 ;; t2" := (ITree.bind t1 (fun _ => t2))
  (at level 100, right associativity) : c_scope.
Local Open Scope c_scope.
Local Open Scope Z_scope.

(* ===================================================================== *)
(** * Part I: definitions *)
(* ===================================================================== *)

(** ** What the shim uses of [<sqlite3.h>]

    [#include <sqlite3.h>] brings two names into the shim: the type
    [sqlite3_destructor_type] and the macro [SQLITE_TRANSIENT], a constant
    expression of that type.  The header is not in the repository, so both
    are the members of an interface. *)
Class sqlite3_h : Type := {
  sqlite3_destructor_type : Type;
  SQLITE_TRANSIENT : sqlite3_destructor_type
}.

(** ** The shim

    [[
    static inline sqlite3_destructor_type csqlite_TRANSIENT(void) {
        return SQLITE_TRANSIENT;
    }
    ]]
    No parameter, one statement: return the macro.  The tree is generic in
    the event signature [E]: the body performs no event of any kind. *)
Definition csqlite_TRANSIENT `{sqlite3_h} {E : Type -> Type}
  : itree E sqlite3_destructor_type :=
  Ret SQLITE_TRANSIENT.

(** ** Observing a call *)

(** Runs a tree for at most [fuel] silent steps.  [None] when the fuel runs
    out or the tree stops at an event, which it can only do by acting on its
    environment. *)
Fixpoint returns_within {E : Type -> Type} {R : Type} (fuel : nat) (t : itree E R)
  {struct fuel} : option R :=
  match observe t with
  | RetF r => Some r
  | TauF t' => match fuel with
               | O => None
               | S fuel' => returns_within fuel' t'
               end
  | VisF _ _ => None
  end.

(** Two calls of the accessor with arbitrary code [between] them; returns
    what the first and the second call returned. *)
Definition call_twice `{sqlite3_h} {E : Type -> Type} {X : Type} (between : itree E X)
  : itree E (sqlite3_destructor_type * sqlite3_destructor_type) :=
  first <- csqlite_TRANSIENT;;
  between;;
  second <- csqlite_TRANSIENT;;
  Ret (first, second).

(** ** The storage engine, from the specification *)

(** Modelled from the spec: the type behind [sqlite3_destructor_type], which
    [<sqlite3.h>] declares and the repository does not contain.  Section 3 of
    the specification: a tagged value with three variants, [Borrow] (the null
    destructor), [OwnedCleanup callback] and [CopyNow] (the transient
    sentinel).  A callback is the address of the caller's cleanup function. *)
Inductive OwnershipDirective : Type :=
| Borrow
| OwnedCleanup (callback : Z)
| CopyNow.

(** Modelled from the spec: the [SQLITE_TRANSIENT] macro of [<sqlite3.h>],
    absent from the repository; the specification names it the [CopyNow]
    sentinel. *)
#[export] Instance engine_h : sqlite3_h := {|
  sqlite3_destructor_type := OwnershipDirective;
  SQLITE_TRANSIENT := CopyNow
|}.

(** The five bytes of the C string literal "hello" (no terminator). *)
Definition hello : list byte := list_byte_of_string "hello".

(** Caller memory: the mapped cells, by address. *)
Fixpoint load (m : gmap Z byte) (p : Z) (n : nat) : option (list byte) :=
  match n with
  | O => Some []
  | S n' =>
    match m !! p, load m (p + 1) n' with
    | Some b, Some bs => Some (b :: bs)
    | _, _ => None
    end
  end.

Fixpoint store (m : gmap Z byte) (p : Z) (bs : list byte) : gmap Z byte :=
  match bs with
  | [] => m
  | b :: bs' => <[p := b]> (store m (p + 1) bs')
  end.

Fixpoint unmap (m : gmap Z byte) (p : Z) (n : nat) : gmap Z byte :=
  match n with
  | O => m
  | S n' => delete p (unmap m (p + 1) n')
  end.

(** What a caller may do to its own memory once a binding call has
    returned: overwrite a buffer or free it. *)
Variant mem_op : Type :=
| Overwrite (p : Z) (bs : list byte)
| Free (p : Z) (n : nat).

Definition apply_mem_op (op : mem_op) (m : gmap Z byte) : gmap Z byte :=
  match op with
  | Overwrite p bs => store m p bs
  | Free p n => unmap m p n
  end.

(** Modelled from the spec: the result code of the engine's binding
    operation (section 6), which distinguishes success from the
    engine-reported failures the specification lists. *)
Variant failure : Type := InvalidIndex | TypeMismatch | OutOfMemory.
Variant result_code : Type := Success | Failure (why : failure).

(** Modelled from the spec: what a parameter slot of the prepared statement
    holds after a binding call (section 3).  Under [CopyNow] the engine has
    its own copy of the bytes; under [Borrow] and [OwnedCleanup] it refers to
    the caller's memory in place, with the callback to run when it is done. *)
Inductive binding : Type :=
| PrivateCopy (bytes : list byte)
| InPlace (p : Z) (n : nat) (cleanup : option Z).

(** One prepared statement and its surroundings: the caller's memory, the
    statement's parameter slots, the bytes the engine can still allocate,
    and the cleanup callbacks the engine has invoked, with their argument. *)
Record session : Type := Session {
  memory : gmap Z byte;
  slots : list (option binding);
  heap : nat;
  cleanups : list (Z * Z)
}.

(** The engine is done with what a slot held: an owned buffer goes back to
    its callback, once. *)
Definition vacate (old : option binding) (log : list (Z * Z)) : list (Z * Z) :=
  match old with
  | Some (InPlace p _ (Some callback)) => log ++ [(callback, p)]
  | _ => log
  end.

(** Modelled from the spec: the engine's binding operation
    [bind(statement_handle, parameter_index, value_bytes, ownership_directive)
    -> result_code] of section 6, for the statement of the session, with the
    value given as a pointer and a length.  [None] is a read of unmapped
    memory, which C leaves undefined. *)
Definition bind_parameter (i : nat) (p : Z) (n : nat) (d : OwnershipDirective)
    (s : session) : option (session * result_code) :=
  match slots s !! i with
  | None => Some (s, Failure InvalidIndex)
  | Some old =>
    match d with
    | Borrow =>
      Some (Session (memory s) (<[i := Some (InPlace p n None)]> (slots s))
              (heap s) (vacate old (cleanups s)), Success)
    | OwnedCleanup callback =>
      Some (Session (memory s) (<[i := Some (InPlace p n (Some callback))]> (slots s))
              (heap s) (vacate old (cleanups s)), Success)
    | CopyNow =>
      if decide (n ≤ heap s)%nat then
        match load (memory s) p n with
        | Some bs =>
          Some (Session (memory s) (<[i := Some (PrivateCopy bs)]> (slots s))
                  (heap s - n)%nat (vacate old (cleanups s)), Success)
        | None => None
        end
      else Some (s, Failure OutOfMemory)
    end
  end.

(** Modelled from the spec: reading a bound value back from the engine.
    A private copy is returned as it is; a binding in place is read from the
    caller's memory as it is now.  The outer [None] is a read of unmapped
    memory, the inner one a slot that holds nothing. *)
Definition read_back (i : nat) (s : session) : option (option (list byte)) :=
  match slots s !! i with
  | Some (Some (PrivateCopy bs)) => Some (Some bs)
  | Some (Some (InPlace p n _)) =>
    match load (memory s) p n with
    | Some bs => Some (Some bs)
    | None => None
    end
  | _ => Some None
  end.

(** The calls a client of the engine makes. *)
Variant engineE : Type -> Type :=
| Caller (op : mem_op) : engineE unit
| Bind (i : nat) (p : Z) (n : nat) (d : OwnershipDirective) : engineE result_code
| ReadBack (i : nat) : engineE (option (list byte)).

(** Undefined behaviour surfaces as an exception of the interpreted program. *)
Variant fault : Type := WildRead.

Definition engine : engineE ~> Monads.stateT session (itree (exceptE fault)) :=
  fun _ e s =>
    match e with
    | Caller op =>
      Ret (Session (apply_mem_op op (memory s)) (slots s) (heap s) (cleanups s), tt)
    | Bind i p n d =>
      match bind_parameter i p n d s with
      | Some r => Ret r
      | None => throw WildRead
      end
    | ReadBack i =>
      match read_back i s with
      | Some v => Ret (s, v)
      | None => throw WildRead
      end
    end.

Fixpoint clobber (ops : list mem_op) : itree engineE unit :=
  match ops with
  | [] => Ret tt
  | op :: ops' => ITree.trigger (Caller op);; clobber ops'
  end.

(** The round trip of section 8: obtain a directive, bind the [n] bytes at
    [p] to parameter [i] with it, let the caller do [after] to its memory,
    then read the parameter back. *)
Definition bind_then_read (directive : itree engineE OwnershipDirective)
    (i : nat) (p : Z) (n : nat) (after : list mem_op)
  : itree engineE (result_code * option (list byte)) :=
  d <- directive;;
  rc <- ITree.trigger (Bind i p n d);;
  clobber after;;
  v <- ITree.trigger (ReadBack i);;
  Ret (rc, v).

(** A session to run examples in: "hello" at address 100, a statement with
    two unbound parameters, sixteen bytes of engine heap. *)
Definition demo : session :=
  Session (store ∅ 100 hello) [None; None] 16 [].

(* ===================================================================== *)
(** * Part II: the accessor *)
(* ===================================================================== *)

Section Accessor.
Context `{sqlite3_h}.

(** The accessor is a leaf: it stops at once, on the macro's value. *)
Lemma csqlite_TRANSIENT_observe (E : Type -> Type) :
  observe (csqlite_TRANSIENT (E := E)) = RetF SQLITE_TRANSIENT.
Proof. reflexivity. Qed.

(** Its only leaf is the macro's value. *)
Lemma csqlite_TRANSIENT_leaf (E : Type -> Type) (d : sqlite3_destructor_type) :
  Leaf d (csqlite_TRANSIENT (E := E)) <-> d = SQLITE_TRANSIENT.
Proof.
  split.
  - intros Hd. now apply Leaf_Ret_inv in Hd.
  - intros ->. apply Leaf_Ret.
Qed.

(** Two calls around any code amount to that code followed by the pair of
    the macro's value with itself. *)
Lemma call_twice_unfold (E : Type -> Type) (X : Type) (between : itree E X) :
  call_twice between ≅ (between;; Ret (SQLITE_TRANSIENT, SQLITE_TRANSIENT)).
Proof.
  unfold call_twice, csqlite_TRANSIENT.
  rewrite bind_ret_l.
  setoid_rewrite bind_ret_l.
  reflexivity.
Qed.

(** C1: [csqlite_TRANSIENT()] returns exactly [SQLITE_TRANSIENT], at the type
    [sqlite3_destructor_type]; so handing its result to any operation that
    expects an ownership directive of that type (the engine's binding call)
    is handing it the macro. *)
Theorem csqlite_TRANSIENT_is_SQLITE_TRANSIENT
    (E : Type -> Type) (R : Type)
    (binding_call : sqlite3_destructor_type -> itree E R) :
  csqlite_TRANSIENT (E := E) = Ret SQLITE_TRANSIENT /\
  (d <- csqlite_TRANSIENT;; binding_call d) ≅ binding_call SQLITE_TRANSIENT.
Proof.
  split; [reflexivity|].
  unfold csqlite_TRANSIENT. now rewrite bind_ret_l.
Qed.

(** C2: of any two calls, whatever runs between them and whatever the state
    they run in, the two returned values are equal. *)
Theorem csqlite_TRANSIENT_stable
    (E : Type -> Type) (X : Type) (between : itree E X)
    (first second : sqlite3_destructor_type) :
  Leaf (first, second) (call_twice between) -> first = second.
Proof.
  intros Hleaf.
  rewrite call_twice_unfold in Hleaf.
  apply Leaf_bind_inv in Hleaf as (x & _ & Hret).
  apply Leaf_Ret_inv in Hret.
  congruence.
Qed.

(** C3: the call cannot fail.  Run where errors of any type [Err] may be
    raised, its outcome is a returned value, never an error; and a handler
    installed around it is never entered. *)
Theorem csqlite_TRANSIENT_never_fails
    (Err : Type) (E : Type -> Type)
    (kcatch : Err -> itree (exceptE Err +' E) sqlite3_destructor_type) :
  throw_prefix (Err := Err) (E := E) csqlite_TRANSIENT ≈ Ret (inl SQLITE_TRANSIENT) /\
  try_catch csqlite_TRANSIENT kcatch ≈ Ret SQLITE_TRANSIENT.
Proof.
  split.
  - unfold throw_prefix. rewrite unfold_iter. cbn.
    rewrite bind_ret_l. reflexivity.
  - unfold try_catch. rewrite unfold_iter. cbn.
    rewrite bind_ret_l. reflexivity.
Qed.

(** C4: the call changes nothing.  Whatever the program state is and
    whatever meaning [h] the events of the program have on it, the call
    leaves the state as it found it and only yields its value. *)
Theorem csqlite_TRANSIENT_frame
    (E F : Type -> Type) (S : Type)
    (h : E ~> Monads.stateT S (itree F)) (s : S) :
  interp_state h csqlite_TRANSIENT s ≅ Ret (s, SQLITE_TRANSIENT).
Proof.
  unfold csqlite_TRANSIENT. apply interp_state_ret.
Qed.

(** C10: every call terminates, at once: it returns without a single
    silent step (no loop, no recursion), without stopping at any event (no
    allocation, no I/O), and every path through it is finite. *)
Theorem csqlite_TRANSIENT_terminates (E : Type -> Type) (fuel : nat) :
  returns_within fuel (csqlite_TRANSIENT (E := E)) = Some SQLITE_TRANSIENT /\
  all_finite (csqlite_TRANSIENT (E := E)).
Proof.
  split.
  - destruct fuel; reflexivity.
  - apply all_finite_Ret.
Qed.

End Accessor.

(** The accessor instantiated at the engine's directive type, between two
    calls of which the caller frees a buffer: both calls return [CopyNow]. *)
Lemma csqlite_TRANSIENT_stable_witness :
  Leaf (CopyNow, CopyNow) (call_twice (ITree.trigger (Caller (Free 100 5)))) /\
  CopyNow = CopyNow.
Proof.
  assert (Hleaf : Leaf (CopyNow, CopyNow)
                    (call_twice (ITree.trigger (Caller (Free 100 5))))).
  { rewrite call_twice_unfold.
    apply Leaf_bind with (b := tt); [|apply Leaf_Ret].
    apply Leaf_Vis with (x := tt). apply Leaf_Ret. }
  split; [exact Hleaf|].
  exact (csqlite_TRANSIENT_stable engineE unit _ CopyNow CopyNow Hleaf).
Defined.

(* ===================================================================== *)
(** * Part III: the accessor's directive at the engine *)
(* ===================================================================== *)

(** ** Caller memory *)


(** A write below [p] is not seen by a read that starts at [p]. *)
Lemma load_insert_lt (m : gmap Z byte) (q p : Z) (b : byte) (n : nat) :
  q < p -> load (<[q := b]> m) p n = load m p n.
Proof.
  revert p. induction n as [|n IH]; intros p Hlt; cbn [load]; [reflexivity|].
  rewrite lookup_insert_ne by lia.
  rewrite IH by lia. reflexivity.
Qed.

(** What was stored at [p] is what is loaded from [p]. *)
Lemma load_store (m : gmap Z byte) (p : Z) (bs : list byte) :
  load (store m p bs) p (length bs) = Some bs.
Proof.
  revert p. induction bs as [|b bs IH]; intros p; cbn [store load length]; [reflexivity|].
  rewrite lookup_insert_eq, load_insert_lt by lia.
  rewrite IH. reflexivity.
Qed.

(** ** The binding call *)

(** With [CopyNow], a valid index, enough heap and a readable buffer, the
    binding call succeeds and leaves the bytes themselves in the slot. *)
Lemma bind_parameter_copy_now (s : session) (i : nat) (p : Z) (n : nat) (bs : list byte) :
  is_Some (slots s !! i) -> (n ≤ heap s)%nat -> load (memory s) p n = Some bs ->
  exists s1, bind_parameter i p n CopyNow s = Some (s1, Success) /\
             slots s1 !! i = Some (Some (PrivateCopy bs)).
Proof.
  intros [old Hold] Hheap Hload. unfold bind_parameter.
  rewrite Hold, Hload, decide_True by exact Hheap.
  eexists; split; [reflexivity|]. cbn [slots].
  apply list_lookup_insert_eq. now apply lookup_lt_Some in Hold.
Qed.

(** With [Borrow] and a valid index the binding call succeeds, leaves a
    reference to the caller's buffer in the slot and memory as it was. *)
Lemma bind_parameter_borrow (s : session) (i : nat) (p : Z) (n : nat) :
  is_Some (slots s !! i) ->
  exists s1, bind_parameter i p n Borrow s = Some (s1, Success) /\
             slots s1 !! i = Some (Some (InPlace p n None)) /\ memory s1 = memory s.
Proof.
  intros [old Hold]. unfold bind_parameter. rewrite Hold.
  eexists; split; [reflexivity|]. cbn [slots memory]. split; [|reflexivity].
  apply list_lookup_insert_eq. now apply lookup_lt_Some in Hold.
Qed.

(** ** Running a client *)

(** The caller's memory operations change memory and nothing else. *)
Lemma interp_clobber (ops : list mem_op) (s : session) :
  interp_state engine (clobber ops) s ≈
  Ret (Session (fold_left (fun m op => apply_mem_op op m) ops (memory s))
         (slots s) (heap s) (cleanups s), tt).
Proof.
  revert s. induction ops as [|op ops IH]; intros s; cbn [clobber fold_left].
  - rewrite interp_state_ret. destruct s; reflexivity.
  - rewrite interp_state_bind, interp_state_trigger. cbn [engine].
    rewrite bind_ret_l. cbn [fst snd]. rewrite IH. reflexivity.
Qed.

(** The round trip, step by step: the binding call, the caller's memory
    operations, the read. *)
Lemma interp_bind_then_read (d : OwnershipDirective) (i : nat) (p : Z) (n : nat)
    (after : list mem_op) (s s1 : session) (rc : result_code) (v : option (list byte)) :
  bind_parameter i p n d s = Some (s1, rc) ->
  read_back i (Session (fold_left (fun m op => apply_mem_op op m) after (memory s1))
                 (slots s1) (heap s1) (cleanups s1)) = Some v ->
  interp_state engine (bind_then_read (Ret d) i p n after) s ≈
  Ret (Session (fold_left (fun m op => apply_mem_op op m) after (memory s1))
         (slots s1) (heap s1) (cleanups s1), (rc, v)).
Proof.
  intros Hbind Hread. unfold bind_then_read.
  rewrite bind_ret_l.
  rewrite interp_state_bind, interp_state_trigger. cbn [engine].
  rewrite Hbind, bind_ret_l. cbn [fst snd].
  rewrite interp_state_bind, interp_clobber, bind_ret_l. cbn [fst snd].
  rewrite interp_state_bind, interp_state_trigger. cbn [engine].
  rewrite Hread, bind_ret_l. cbn [fst snd].
  rewrite interp_state_ret. reflexivity.
Qed.

(** ** Round trips *)

(** Bound with [Borrow], a parameter is read from the caller's memory as it
    is at the time of the read: after the caller overwrites the buffer, the
    engine sees the new bytes. *)
Lemma borrow_reads_in_place (s : session) (i : nat) (p : Z) (junk : list byte) :
  is_Some (slots s !! i) ->
  exists s', interp_state engine
               (bind_then_read (Ret Borrow) i p (length junk) [Overwrite p junk]) s ≈
             Ret (s', (Success, Some junk)).
Proof.
  intros Hi.
  destruct (bind_parameter_borrow s i p (length junk) Hi) as (s1 & Hbind & Hslot & _).
  eexists. apply interp_bind_then_read with (s1 := s1); [exact Hbind|].
  unfold read_back. cbn [slots memory fold_left apply_mem_op].
  rewrite Hslot, load_store. reflexivity.
Qed.

(** Bound with [CopyNow], a parameter reads back as the bytes the buffer held
    when the binding call was made, whatever the caller does to its memory
    afterwards. *)
Lemma copy_now_keeps_bytes (s : session) (i : nat) (p : Z) (n : nat)
    (bs : list byte) (after : list mem_op) :
  is_Some (slots s !! i) -> (n ≤ heap s)%nat -> load (memory s) p n = Some bs ->
  exists s', interp_state engine (bind_then_read (Ret CopyNow) i p n after) s ≈
             Ret (s', (Success, Some bs)).
Proof.
  intros Hi Hheap Hload.
  destruct (bind_parameter_copy_now s i p n bs Hi Hheap Hload) as (s1 & Hbind & Hslot).
  eexists. apply interp_bind_then_read with (s1 := s1); [exact Hbind|].
  unfold read_back. cbn [slots]. rewrite Hslot. reflexivity.
Qed.

(** The section 8 scenario on the demo session, run with fuel: bound with
    the accessor's directive "hello" survives the caller overwriting and then
    freeing the buffer; bound with [Borrow] it does not survive the
    overwrite, and reading it after the free is a wild read. *)
Example demo_copy_now :
  option_map snd
    (returns_within 16
       (interp_state engine
          (bind_then_read csqlite_TRANSIENT 0 100 5
             [Overwrite 100 (list_byte_of_string "HELLO"); Free 100 5]) demo))
  = Some (Success, Some hello).
Proof. vm_compute. reflexivity. Qed.

Example demo_borrow_overwritten :
  option_map snd
    (returns_within 16
       (interp_state engine
          (bind_then_read (Ret Borrow) 0 100 5
             [Overwrite 100 (list_byte_of_string "HELLO")]) demo))
  = Some (Success, Some (list_byte_of_string "HELLO")).
Proof. vm_compute. reflexivity. Qed.

Example demo_borrow_freed :
  option_map snd
    (returns_within 16
       (interp_state engine
          (bind_then_read (Ret Borrow) 0 100 5 [Free 100 5]) demo))
  = None.
Proof. vm_compute. reflexivity. Qed.

Example demo_invalid_index :
  bind_parameter 2 100 5 (SQLITE_TRANSIENT : OwnershipDirective) demo
  = Some (demo, Failure InvalidIndex).
Proof. reflexivity. Qed.

(** C7: round trip through the engine.  A buffer holding "hello" is bound to
    a parameter of the statement with the directive [csqlite_TRANSIENT()]
    returns; the caller then overwrites or frees memory as it likes; the
    bound value read back is "hello".  The engine made its copy before the
    binding call returned: on return the slot holds the bytes themselves. *)
Theorem copy_now_roundtrip (s : session) (i : nat) (p : Z) (after : list mem_op) :
  is_Some (slots s !! i) ->
  (5 ≤ heap s)%nat ->
  load (memory s) p 5 = Some hello ->
  (exists s1, bind_parameter i p 5 SQLITE_TRANSIENT s = Some (s1, Success) /\
              slots s1 !! i = Some (Some (PrivateCopy hello))) /\
  (exists s', interp_state engine (bind_then_read csqlite_TRANSIENT i p 5 after) s ≈
              Ret (s', (Success, Some hello))).
Proof.
  intros Hi Hheap Hload. split.
  - exact (bind_parameter_copy_now s i p 5 hello Hi Hheap Hload).
  - exact (copy_now_keeps_bytes s i p 5 hello after Hi Hheap Hload).
Qed.

(** The round trip on the demo session: the buffer at 100 is bound to
    parameter 0, overwritten with "HELLO" and freed. *)
Lemma copy_now_roundtrip_witness :
  (exists s1, bind_parameter 0 100 5 SQLITE_TRANSIENT demo = Some (s1, Success) /\
              slots s1 !! 0%nat = Some (Some (PrivateCopy hello))) /\
  (exists s', interp_state engine
                (bind_then_read csqlite_TRANSIENT 0 100 5
                   [Overwrite 100 (list_byte_of_string "HELLO"); Free 100 5]) demo ≈
              Ret (s', (Success, Some hello))).
Proof.
  apply (copy_now_roundtrip demo 0 100).
  - exists None. reflexivity.
  - vm_compute. lia.
  - vm_compute. reflexivity.
Defined.

(** C5: the directive [csqlite_TRANSIENT()] returns is not [Borrow], the null
    destructor, and the binding call tells the two apart: there is a session
    in which the same buffer, bound and then overwritten, reads back
    differently under the one and under the other. *)
Theorem copy_now_is_not_borrow (E : Type -> Type) (d : OwnershipDirective) :
  Leaf d (csqlite_TRANSIENT (E := E)) ->
  d <> Borrow /\
  exists (s : session) (i : nat) (p : Z) (n : nat) (after : list mem_op)
         (s1 s2 : session) (v1 v2 : option (list byte)),
    interp_state engine (bind_then_read (Ret d) i p n after) s ≈
      Ret (s1, (Success, v1)) /\
    interp_state engine (bind_then_read (Ret Borrow) i p n after) s ≈
      Ret (s2, (Success, v2)) /\
    v1 <> v2.
Proof.
  intros Hd. apply (proj1 (@csqlite_TRANSIENT_leaf engine_h E d)) in Hd.
  cbn in Hd. subst d. split; [discriminate|].
  pose (junk := list_byte_of_string "HELLO").
  assert (Hi : is_Some (slots demo !! 0%nat)) by (exists None; reflexivity).
  destruct (copy_now_keeps_bytes demo 0 100 (length junk) hello [Overwrite 100 junk] Hi)
    as [s1 Hcopy]; [vm_compute; lia | vm_compute; reflexivity |].
  destruct (borrow_reads_in_place demo 0 100 junk Hi) as [s2 Hborrow].
  exists demo, 0%nat, 100, (length junk), [Overwrite 100 junk], s1, s2,
    (Some hello), (Some junk).
  split; [exact Hcopy|]. split; [exact Hborrow|].
  vm_compute. discriminate.
Qed.

(** The value the accessor returns at the engine's directive type. *)
Lemma copy_now_is_not_borrow_witness :
  Leaf CopyNow (csqlite_TRANSIENT (E := engineE)) /\ CopyNow <> Borrow.
Proof.
  assert (Hleaf : Leaf CopyNow (csqlite_TRANSIENT (E := engineE))) by apply Leaf_Ret.
  split; [exact Hleaf|].
  exact (proj1 (copy_now_is_not_borrow engineE CopyNow Hleaf)).
Defined.

(* ===================================================================== *)
(** * Part IV: the accessor inside a caller *)
(* ===================================================================== *)

Section Callers.
Context `{sqlite3_h}.

(** X1: one call can stand for two.  A caller that calls the accessor,
    runs any code, calls the accessor again and goes on with both results
    behaves exactly like the caller that runs the code first, calls once and
    uses that result in both places: the call may be moved across arbitrary
    code and its result kept for later uses. *)
Theorem csqlite_TRANSIENT_call_shared
    (E : Type -> Type) (X R : Type) (between : itree E X)
    (rest : sqlite3_destructor_type -> X -> sqlite3_destructor_type -> itree E R) :
  (first <- csqlite_TRANSIENT;;
   x <- between;;
   second <- csqlite_TRANSIENT;;
   rest first x second)
  ≅
  (x <- between;;
   d <- csqlite_TRANSIENT;;
   rest d x d).
Proof.
  unfold csqlite_TRANSIENT.
  rewrite bind_ret_l.
  apply eqit_bind; [reflexivity|].
  intros x. rewrite !bind_ret_l. reflexivity.
Qed.

End Callers.
